(** * caikit.core.model_management.model_trainer_base

    A shallow embedding of [ModelTrainerBase] together with the parts of the
    Python runtime it calls ([str] methods and [os.path], which is
    [posixpath]), and the properties of the training-status predicate, the
    composite training id and the save-path derivation.

    A Python [str] is a [string] here.  The code only ever compares
    characters with the path separator and with the id delimiter, so the
    size of the alphabet plays no part. *)

From Stdlib Require Import Bool Arith ZArith Lia Lists.List.
From Stdlib Require Import Strings.Ascii Strings.String.
Import ListNotations.

Open Scope string_scope.

(** ** Python [str] primitives used by the module *)

Module PyStr.

(** [sub in s] for strings: [sub] occurs as a contiguous block of [s]. *)
Fixpoint str_in (sub s : string) : bool :=
  prefix sub s ||
  match s with
  | EmptyString => false
  | String _ s' => str_in sub s'
  end.

(** [s.startswith(pre)] *)
Definition startswith (s pre : string) : bool := prefix pre s.

(** [s.endswith(suf)] *)
Fixpoint endswith (s suf : string) : bool :=
  (s =? suf) ||
  match s with
  | EmptyString => false
  | String _ s' => endswith s' suf
  end.

(** [s.rstrip(c)] for a one-character argument. *)
Fixpoint rstrip (c : ascii) (s : string) : string :=
  match s with
  | EmptyString => EmptyString
  | String a s' =>
      match rstrip c s' with
      | EmptyString =>
          if (a =? c)%char then EmptyString else String a EmptyString
      | r => String a r
      end
  end.

(** [s * n] *)
Fixpoint str_mul (s : string) (n : nat) : string :=
  match n with
  | O => EmptyString
  | S n' => s ++ str_mul s n'
  end.

(** [s.rfind(c)] for a one-character argument: the highest index at which
    [c] occurs, [-1] when it does not occur. *)
Fixpoint rfind (c : ascii) (s : string) : Z :=
  match s with
  | EmptyString => (-1)%Z
  | String a s' =>
      let r := rfind c s' in
      if (0 <=? r)%Z then (r + 1)%Z
      else if (a =? c)%char then 0%Z else (-1)%Z
  end.

(** The slices [s[:i]] and [s[i:]] for [0 <= i]. *)
Definition slice_to (i : nat) (s : string) : string := substring 0 i s.
Definition slice_from (i : nat) (s : string) : string :=
  substring i (String.length s - i) s.

(** [s.split(c)] for a one-character separator. *)
Fixpoint str_split (c : ascii) (s : string) : list string :=
  match s with
  | EmptyString => [EmptyString]
  | String a s' =>
      if (a =? c)%char then EmptyString :: str_split c s'
      else match str_split c s' with
           | seg :: segs => String a seg :: segs
           | [] => [String a EmptyString]
           end
  end.

(** [d.join(parts)] *)
Definition str_join (d : string) (parts : list string) : string :=
  concat d parts.

End PyStr.

(** ** [posixpath] *)

Module PosixPath.
Import PyStr.

Definition sep_char : ascii := "/"%char.
Definition sep : string := String sep_char EmptyString.

(** [posixpath.split]:
<<
  i = p.rfind(sep) + 1
  head, tail = p[:i], p[i:]
  if head and head != sep*len(head):
      head = head.rstrip(sep)
  return head, tail
>> *)
Definition split (p : string) : string * string :=
  let i := Z.to_nat (rfind sep_char p + 1) in
  let head := slice_to i p in
  let tail := slice_from i p in
  let head :=
    if negb (head =? "") && negb (head =? str_mul sep (String.length head))
    then rstrip sep_char head
    else head in
  (head, tail).

(** One turn of the loop of [posixpath.join]:
<<
  if b.startswith(sep):
      path = b
  elif not path or path.endswith(sep):
      path += b
  else:
      path += sep + b
>> *)
Definition join_step (path b : string) : string :=
  if startswith b sep then b
  else if (path =? "") || endswith path sep then path ++ b
  else path ++ sep ++ b.

(** [posixpath.join(a, *p)] *)
Definition join (a : string) (p : list string) : string :=
  fold_left join_step p a.

End PosixPath.

(** ** [ReversibleHasher]

    The hasher lives in [caikit.core.toolkit.reversible_hasher]; the trainer
    base only calls its two class methods.  [reverse_hash] may raise, which
    is [None] here. *)

Class ReversibleHasher := {
  hash : string -> string;
  reverse_hash : string -> option string
}.

(** ** [ModelTrainerBase] *)

Module ModelTrainerBase.
Import PyStr.

(** *** [TrainingStatus] *)

Inductive TrainingStatus : Set :=
| QUEUED | RUNNING | COMPLETED | CANCELED | ERRORED.

Definition value (s : TrainingStatus) : Z :=
  match s with
  | QUEUED => 1 | RUNNING => 2 | COMPLETED => 3 | CANCELED => 4 | ERRORED => 5
  end%Z.

(** Enum members compare by identity. *)
Definition status_eqb (a b : TrainingStatus) : bool :=
  match a, b with
  | QUEUED, QUEUED | RUNNING, RUNNING | COMPLETED, COMPLETED
  | CANCELED, CANCELED | ERRORED, ERRORED => true
  | _, _ => false
  end.

(** [self in [COMPLETED, CANCELED, ERRORED]] *)
Definition is_terminal (self : TrainingStatus) : bool :=
  existsb (status_eqb self) [COMPLETED; CANCELED; ERRORED].

(** *** [ModelFutureBase] *)

Definition delim_char : ascii := ":"%char.
Definition ID_DELIMITER : string := String delim_char EmptyString.

(** [_save_path_with_id]: [None] is Python's [None].  [os.path.split]
    returns a pair, so [path_parts[:-1] + (training_id,) + path_parts[-1:]]
    is the triple head, id, tail handed to [os.path.join]. *)
Definition _save_path_with_id
    (save_path : option string) (save_with_id : bool) (training_id : string)
    : option string :=
  match save_path with
  | None => None
  | Some p =>
      if negb save_with_id || str_in training_id p then Some p
      else
        let path_parts := PosixPath.split p in
        Some (PosixPath.join (fst path_parts) [training_id; snd path_parts])
  end.

(** The fields set by [ModelFutureBase.__init__]. *)
Record ModelFutureBase := {
  _id : string;
  _save_path : option string
}.

Definition init `{ReversibleHasher}
    (parent_name training_id : string) (save_with_id : bool)
    (save_path : option string) : ModelFutureBase :=
  let id := str_join ID_DELIMITER [hash parent_name; training_id] in
  {| _id := id;
     _save_path := _save_path_with_id save_path save_with_id id |}.

(** [get_trainer_name]: [training_id.split(ID_DELIMITER)[0]] handed to
    [reverse_hash]; an empty list would raise at the subscript. *)
Definition get_trainer_name `{ReversibleHasher} (training_id : string)
    : option string :=
  match str_split delim_char training_id with
  | seg :: _ => reverse_hash seg
  | [] => None
  end.

End ModelTrainerBase.

(** ** A concrete hasher

    [ReversibleHasher] is defined in another module of the package,
    [caikit.core.toolkit.reversible_hasher].  The specification (section
    4.1, ReversibleEncoder) asks for a deterministic, invertible base
    transform whose tokens never hold the id delimiter and whose decoder
    rejects every token the encoder could not have produced.  The instance
    below turns every character into its two lower-case hexadecimal
    digits. *)

Module HexHasher.

Definition digits : list ascii := list_ascii_of_string "0123456789abcdef".

Definition hex_digit (n : nat) : ascii := nth n digits "0"%char.

Fixpoint position (c : ascii) (l : list ascii) : option nat :=
  match l with
  | [] => None
  | d :: l' =>
      if (c =? d)%char then Some 0
      else option_map S (position c l')
  end.

Definition hex_value (c : ascii) : option nat := position c digits.

(** Modelled from the spec: [encode] of the ReversibleEncoder, that is
    [ReversibleHasher.hash], defined outside this module. *)
Fixpoint encode (name : string) : string :=
  match name with
  | EmptyString => EmptyString
  | String a rest =>
      let n := nat_of_ascii a in
      String (hex_digit (n / 16)) (String (hex_digit (n mod 16)) (encode rest))
  end.

(** Modelled from the spec: [decode] of the ReversibleEncoder, that is
    [ReversibleHasher.reverse_hash], defined outside this module; [None] is
    the InvalidToken error. *)
Fixpoint decode (token : string) : option string :=
  match token with
  | EmptyString => Some EmptyString
  | String _ EmptyString => None
  | String h (String l rest) =>
      match hex_value h, hex_value l, decode rest with
      | Some x, Some y, Some name =>
          Some (String (ascii_of_nat (16 * x + y)) name)
      | _, _, _ => None
      end
  end.

(** Modelled from the spec: the ReversibleEncoder as a hasher. *)
Definition hasher : ReversibleHasher :=
  {| hash := encode; reverse_hash := decode |}.

End HexHasher.

Import PyStr ModelTrainerBase.

(** ** Vocabulary of the statements *)

(** What [posixpath.split] leaves of the part of the path up to and
    including its last separator. *)
Definition strip_head (head : string) : string :=
  if negb (head =? "") &&
     negb (head =? str_mul PosixPath.sep (String.length head))
  then rstrip PosixPath.sep_char head
  else head.

(** No character of [s] is [c]. *)
Fixpoint lacks (c : ascii) (s : string) : bool :=
  match s with
  | EmptyString => true
  | String a s' => negb (a =? c)%char && lacks c s'
  end.

(** The composite id has no delimiter at all. *)
Definition missing_delimiter (training_id : string) : bool :=
  lacks delim_char training_id.

(** The two laws callers expect of a hasher. *)
Definition hash_reversible (H : ReversibleHasher) : Prop :=
  forall x : string, reverse_hash (hash x) = Some x.

Definition hash_delimiter_free (H : ReversibleHasher) (n : string) : Prop :=
  lacks delim_char (hash n) = true.

(** * Properties *)

(** ** Strings *)

Section StringFacts.

Lemma append_empty_r (s : string) : s ++ "" = s.
Proof. induction s as [|a s IH]; simpl; [reflexivity | now rewrite IH]. Qed.

Lemma append_assoc (a b c : string) : (a ++ b) ++ c = a ++ (b ++ c).
Proof. induction a as [|x a IH]; simpl; [reflexivity | now rewrite IH]. Qed.

Lemma append_length (a b : string) :
  String.length (a ++ b) = String.length a + String.length b.
Proof. induction a as [|x a IH]; simpl; [reflexivity | now rewrite IH]. Qed.

Lemma append_eq_empty (a b : string) : a ++ b = "" -> a = "" /\ b = "".
Proof. destruct a; simpl; [auto | discriminate]. Qed.

Lemma eqb_empty_false (a : ascii) (s : string) : (String a s =? "") = false.
Proof. reflexivity. Qed.

Lemma prefix_app (t s : string) : prefix t (t ++ s) = true.
Proof.
  induction t as [|a t IH]; simpl.
  - now destruct s.
  - destruct (ascii_dec a a) as [_|N]; [exact IH | now elim N].
Qed.

Lemma str_in_empty (s : string) : str_in "" s = true.
Proof. destruct s; reflexivity. Qed.

Lemma str_in_prefix (t s : string) : prefix t s = true -> str_in t s = true.
Proof. intros H. destruct s; cbn [str_in]; now rewrite H. Qed.

Lemma str_in_app_l (t a s : string) :
  str_in t s = true -> str_in t (a ++ s) = true.
Proof.
  intros Hs. induction a as [|x a IH]; simpl; [exact Hs|].
  rewrite IH. apply orb_true_r.
Qed.

Lemma str_in_middle (t a b : string) : str_in t (a ++ t ++ b) = true.
Proof.
  apply str_in_app_l, str_in_prefix, prefix_app.
Qed.

Lemma str_in_false_nonempty (t p : string) : str_in t p = false -> t <> "".
Proof. intros H ->. now rewrite str_in_empty in H. Qed.

Lemma endswith_cons (x : ascii) (s suf : string) :
  endswith (String x s) suf = (String x s =? suf) || endswith s suf.
Proof. reflexivity. Qed.

(** [endswith] against a one-character suffix. *)

Lemma endswith_snoc (a : string) (c : ascii) :
  endswith (a ++ String c "") (String c "") = true.
Proof.
  induction a as [|x a IH]; simpl.
  - now rewrite Ascii.eqb_refl.
  - rewrite IH. apply orb_true_r.
Qed.

Lemma endswith_inv (s : string) (c : ascii) :
  endswith s (String c "") = true -> exists a, s = a ++ String c "".
Proof.
  induction s as [|x s IH]; simpl; [discriminate|].
  intros H. apply orb_true_iff in H as [H|H].
  - destruct (Ascii.eqb_spec x c) as [->|]; [|discriminate].
    destruct s; [|discriminate]. now exists "".
  - destruct (IH H) as [a ->]. now exists (String x a).
Qed.

Lemma endswith_app (a t : string) (c : ascii) :
  t <> "" -> endswith (a ++ t) (String c "") = endswith t (String c "").
Proof.
  intros Ht. induction a as [|x a IH]; simpl; [reflexivity|].
  rewrite IH. destruct (a ++ t) eqn:E.
  - apply append_eq_empty in E as [_ ->]. now elim Ht.
  - destruct (x =? c)%char; reflexivity.
Qed.

Lemma append_eqb_empty (a t : string) : t <> "" -> (a ++ t =? "") = false.
Proof.
  intros Ht. apply String.eqb_neq. intros E.
  apply append_eq_empty in E as [_ ->]. now elim Ht.
Qed.

End StringFacts.

(** ** Searching and slicing *)

Section SearchFacts.
Variable c : ascii.

Lemma rfind_lacks (s : string) : lacks c s = true -> rfind c s = (-1)%Z.
Proof.
  induction s as [|x s IH]; simpl; [reflexivity|].
  intros H. apply andb_true_iff in H as [Hx Hs].
  rewrite (IH Hs). simpl.
  now destruct (x =? c)%char.
Qed.

Lemma rfind_last (a b : string) :
  lacks c b = true ->
  rfind c (a ++ String c b) = Z.of_nat (String.length a).
Proof.
  intros Hb. induction a as [|x a IH].
  - simpl. rewrite (rfind_lacks _ Hb). simpl. now rewrite Ascii.eqb_refl.
  - cbn [append rfind String.length]. rewrite IH.
    destruct (0 <=? Z.of_nat (String.length a))%Z eqn:E.
    + lia.
    + apply Z.leb_gt in E. lia.
Qed.

(** Every string either lacks [c] or breaks at its last [c]. *)
Lemma last_occurrence (s : string) :
  lacks c s = true \/
  exists a b, s = a ++ String c b /\ lacks c b = true.
Proof.
  induction s as [|x s [IH|(a & b & -> & Hb)]].
  - now left.
  - destruct (Ascii.eqb_spec x c) as [->|Hx].
    + right. now exists "", s.
    + left. simpl. rewrite IH.
      apply Ascii.eqb_neq in Hx. now rewrite Hx.
  - right. now exists (String x a), b.
Qed.

Lemma lacks_startswith (s : string) :
  lacks c s = true -> startswith s (String c "") = false.
Proof.
  destruct s as [|x s]; [reflexivity|]. simpl.
  intros H. apply andb_true_iff in H as [Hx _].
  destruct (ascii_dec c x) as [->|]; [|reflexivity].
  now rewrite Ascii.eqb_refl in Hx.
Qed.

End SearchFacts.

Section SliceFacts.

Lemma substring_all (s : string) : substring 0 (String.length s) s = s.
Proof. induction s as [|x s IH]; simpl; [reflexivity | now rewrite IH]. Qed.

Lemma substring_none (s : string) : substring 0 0 s = "".
Proof. now destruct s. Qed.

Lemma slice_to_app (a b : string) : slice_to (String.length a) (a ++ b) = a.
Proof.
  unfold slice_to. induction a as [|x a IH]; simpl.
  - apply substring_none.
  - now rewrite IH.
Qed.

Lemma slice_from_app (a b : string) :
  slice_from (String.length a) (a ++ b) = b.
Proof.
  unfold slice_from. rewrite append_length.
  replace (String.length a + String.length b - String.length a)
    with (String.length b) by lia.
  induction a as [|x a IH]; simpl; [apply substring_all | exact IH].
Qed.

Lemma slice_to_0 (s : string) : slice_to 0 s = "".
Proof. apply substring_none. Qed.

Lemma slice_from_0 (s : string) : slice_from 0 s = s.
Proof. unfold slice_from. rewrite Nat.sub_0_r. apply substring_all. Qed.

End SliceFacts.

(** ** Trailing characters *)

Section StripFacts.
Variable c : ascii.

Lemma rstrip_snoc (d : string) : rstrip c (d ++ String c "") = rstrip c d.
Proof.
  induction d as [|x d IH]; simpl.
  - now rewrite Ascii.eqb_refl.
  - now rewrite IH.
Qed.

Lemma rstrip_id (d : string) :
  endswith d (String c "") = false -> rstrip c d = d.
Proof.
  induction d as [|x d IH]; [reflexivity|].
  cbn [endswith rstrip]. intros H.
  apply orb_false_iff in H as [Hx Hd].
  rewrite (IH Hd). destruct d as [|y d]; [|reflexivity].
  simpl in Hx. now destruct (x =? c)%char.
Qed.

(** A non-empty string whose extension by [c] is a run of [c] ends in [c]. *)
Lemma run_endswith (n : nat) : forall d : string,
  d <> "" -> d ++ String c "" = str_mul (String c "") n ->
  endswith d (String c "") = true.
Proof.
  induction n as [|n IH]; intros d Hd E.
  - destruct d; discriminate.
  - destruct d as [|x d]; [now elim Hd|].
    simpl in E. injection E as -> E.
    destruct d as [|y d].
    + simpl. now rewrite Ascii.eqb_refl.
    + rewrite endswith_cons, (IH (String y d));
        [apply orb_true_r | discriminate | exact E].
Qed.

End StripFacts.

(** ** [posixpath.split] and [posixpath.join] *)

Section PosixPathFacts.
Import PosixPath.

Lemma split_no_sep (p : string) :
  lacks sep_char p = true -> split p = ("", p).
Proof.
  intros H. unfold split. rewrite (rfind_lacks _ _ H). simpl Z.to_nat.
  now rewrite slice_to_0, slice_from_0.
Qed.

Lemma split_at_last_sep (a b : string) :
  lacks sep_char b = true ->
  split (a ++ String sep_char b) = (strip_head (a ++ sep), b).
Proof.
  intros H. unfold split, strip_head. rewrite (rfind_last _ _ _ H).
  replace (Z.to_nat (Z.of_nat (String.length a) + 1))
    with (String.length (a ++ sep))
    by (rewrite append_length; simpl; lia).
  replace (a ++ String sep_char b) with ((a ++ sep) ++ b)
    by (now rewrite append_assoc).
  now rewrite slice_to_app, slice_from_app.
Qed.

Lemma split_tail_lacks (p : string) : lacks sep_char (snd (split p)) = true.
Proof.
  destruct (last_occurrence sep_char p) as [H|(a & b & -> & H)].
  - now rewrite (split_no_sep _ H).
  - now rewrite (split_at_last_sep _ _ H).
Qed.

Lemma split_trailing_sep (p : string) :
  endswith p sep = true ->
  exists a, p = a ++ sep /\ split p = (strip_head p, "").
Proof.
  intros H. destruct (endswith_inv _ _ H) as [a ->].
  exists a. split; [reflexivity|].
  now apply (split_at_last_sep a "").
Qed.

Lemma strip_head_single (d : string) :
  endswith d sep = false ->
  strip_head (d ++ sep) = if d =? "" then sep else d.
Proof.
  intros H. destruct d as [|x d]; [reflexivity|].
  unfold strip_head.
  rewrite append_eqb_empty by discriminate.
  destruct (String x d ++ sep =? str_mul sep (String.length (String x d ++ sep)))
    eqn:E.
  - apply String.eqb_eq in E. apply run_endswith in E; [|discriminate].
    unfold sep in H. congruence.
  - cbn [negb andb String.eqb]. unfold sep.
    now rewrite rstrip_snoc, rstrip_id.
Qed.

Lemma join_two (a b c : string) :
  join a [b; c] = join_step (join_step a b) c.
Proof. reflexivity. Qed.

(** Whatever the first component, a non-empty second component survives
    [join] when the third one is relative, and the third one follows it
    after exactly one separator. *)
Lemma join_inject (head t tail : string) :
  t <> "" -> startswith tail sep = false ->
  exists pre,
    join head [t; tail] =
    pre ++ t ++ (if endswith t sep then "" else sep) ++ tail.
Proof.
  intros Ht Htail. rewrite join_two.
  assert (exists pre, join_step head t = pre ++ t) as [pre ->].
  { unfold join_step.
    destruct (startswith t sep); [now exists ""|].
    destruct ((head =? "") || endswith head sep); [now exists head|].
    exists (head ++ sep). now rewrite append_assoc. }
  exists pre. unfold join_step at 1. rewrite Htail.
  rewrite (append_eqb_empty pre t Ht). unfold sep at 1 2.
  rewrite (endswith_app pre t sep_char Ht). simpl orb.
  fold sep. destruct (endswith t sep); now rewrite !append_assoc.
Qed.

End PosixPathFacts.

(** ** The hexadecimal hasher *)

Module HexFacts.
Import HexHasher.

Lemma position_sound (c : ascii) (l : list ascii) : forall n,
  position c l = Some n -> n < List.length l /\ nth n l "0"%char = c.
Proof.
  induction l as [|d l IH]; simpl; [discriminate|].
  intros n. destruct (Ascii.eqb_spec c d) as [->|_].
  - intros [= <-]. split; [lia | reflexivity].
  - destruct (position c l) as [m|]; [|discriminate].
    intros [= <-]. destruct (IH m eq_refl) as [Hm Hn].
    split; [lia | exact Hn].
Qed.

Lemma hex_value_sound (c : ascii) (x : nat) :
  hex_value c = Some x -> x < 16 /\ hex_digit x = c.
Proof. intros H. exact (position_sound c digits x H). Qed.

(** One character through [encode] and back. *)
Lemma char_roundtrip (a : ascii) :
  let n := nat_of_ascii a in
  hex_value (hex_digit (n / 16)) = Some (n / 16) /\
  hex_value (hex_digit (n mod 16)) = Some (n mod 16) /\
  ascii_of_nat (16 * (n / 16) + n mod 16) = a.
Proof.
  destruct a as [[] [] [] [] [] [] [] []]; vm_compute; repeat split.
Qed.

Lemma digit_not_delim (x : nat) :
  x < 16 -> (hex_digit x =? delim_char)%char = false.
Proof.
  intros H. do 16 (destruct x as [|x]; [reflexivity|]). lia.
Qed.

Theorem decode_encode (name : string) : decode (encode name) = Some name.
Proof.
  induction name as [|a name IH]; [reflexivity|].
  cbn [encode decode].
  destruct (char_roundtrip a) as (-> & -> & ->).
  now rewrite IH.
Qed.

Theorem encode_lacks_delim (name : string) :
  lacks delim_char (encode name) = true.
Proof.
  induction name as [|a name IH]; [reflexivity|].
  cbn [encode lacks].
  rewrite !digit_not_delim, IH; [reflexivity| |].
  - apply Nat.mod_upper_bound. discriminate.
  - apply Nat.Div0.div_lt_upper_bound.
    pose proof (nat_ascii_bounded a). lia.
Qed.

(** [decode] accepts nothing but what [encode] produces. *)
Theorem decode_only_encoded : forall token name : string,
  decode token = Some name -> token = encode name.
Proof.
  fix IH 1. intros [|h [|l rest]] name; cbn [decode].
  - now intros [= <-].
  - discriminate.
  - destruct (hex_value h) as [x|] eqn:Hx; [|discriminate].
    destruct (hex_value l) as [y|] eqn:Hy; [|discriminate].
    destruct (decode rest) as [s|] eqn:Hs; [|discriminate].
    remember (16 * x + y) as n eqn:En.
    intros [= <-]. apply IH in Hs. subst rest.
    apply hex_value_sound in Hx as [Bx <-], Hy as [By <-].
    cbn [encode]. rewrite nat_ascii_embedding by lia.
    replace (n / 16) with x by (apply Nat.div_unique with y; lia).
    replace (n mod 16) with y by (apply Nat.mod_unique with x; lia).
    reflexivity.
Qed.

Lemma hasher_reversible : hash_reversible hasher.
Proof. exact decode_encode. Qed.

Lemma hasher_delimiter_free (n : string) : hash_delimiter_free hasher n.
Proof. exact (encode_lacks_delim n). Qed.

End HexFacts.

(** ** Splitting a composite id *)

Section SplitFacts.
Variable c : ascii.

Lemma str_split_lacks (s : string) :
  lacks c s = true -> str_split c s = [s].
Proof.
  induction s as [|x s IH]; simpl; [reflexivity|].
  intros H. apply andb_true_iff in H as [Hx Hs].
  rewrite (IH Hs). now destruct (x =? c)%char.
Qed.

Lemma str_split_first (a b : string) :
  lacks c a = true ->
  str_split c (a ++ String c b) = a :: str_split c b.
Proof.
  induction a as [|x a IH]; simpl.
  - now rewrite Ascii.eqb_refl.
  - intros H. apply andb_true_iff in H as [Hx Ha].
    rewrite (IH Ha). now destruct (x =? c)%char.
Qed.

Lemma str_split_segments (s : string) :
  lacks c s = false -> 2 <= List.length (str_split c s).
Proof.
  induction s as [|x s IH]; simpl; [discriminate|].
  destruct (x =? c)%char; simpl.
  - intros _. destruct (str_split c s) eqn:E; simpl; [|lia].
    destruct s; simpl in E; [discriminate|].
    destruct (_ =? _)%char; [discriminate|].
    destruct (str_split c s); discriminate.
  - intros H. specialize (IH H).
    destruct (str_split c s); simpl in *; lia.
Qed.

End SplitFacts.

(** ** [TrainingStatus] *)

(** C3: over the five members of [TrainingStatus], [is_terminal] holds
    exactly of COMPLETED, CANCELED and ERRORED and fails exactly of QUEUED
    and RUNNING. *)
Theorem is_terminal_exact (s : TrainingStatus) :
  In s [QUEUED; RUNNING; COMPLETED; CANCELED; ERRORED] /\
  (is_terminal s = true <-> s = COMPLETED \/ s = CANCELED \/ s = ERRORED) /\
  (is_terminal s = false <-> s = QUEUED \/ s = RUNNING).
Proof.
  split; [destruct s; simpl; auto 6|].
  destruct s; cbn; (split; split);
    solve [ intros; discriminate
          | intros; auto
          | intros [E|[E|E]]; discriminate E
          | intros [E|E]; discriminate E ].
Qed.

Lemma is_terminal_exact_witness :
  is_terminal ERRORED = true /\ is_terminal RUNNING = false.
Proof.
  split.
  - apply (proj1 (proj2 (is_terminal_exact ERRORED))).
    right; right; reflexivity.
  - apply (proj2 (proj2 (is_terminal_exact RUNNING))).
    right; reflexivity.
Defined.

(** The five members carry the values 1 to 5, each its own. *)
Lemma value_injective (a b : TrainingStatus) :
  value a = value b -> a = b.
Proof. destruct a, b; simpl; intros E; (reflexivity || discriminate E). Qed.

(** ** The composite id *)

Section CompositeId.
Context (H : ReversibleHasher).

Lemma init_id (n j : string) (b : bool) (p : option string) :
  _id (init n j b p) = hash n ++ String delim_char j.
Proof. reflexivity. Qed.

Lemma first_segment (n j : string) :
  hash_delimiter_free H n ->
  str_split delim_char (hash n ++ String delim_char j)
  = hash n :: str_split delim_char j.
Proof. intros Hn. now apply str_split_first. Qed.

(** A bare token, with no delimiter and no job id, is decoded all the
    same. *)
Lemma bare_token_decodes (n : string) :
  hash_reversible H -> hash_delimiter_free H n ->
  get_trainer_name (hash n) = Some n.
Proof.
  intros Hr Hn. unfold get_trainer_name.
  rewrite (str_split_lacks _ _ Hn). apply Hr.
Qed.

End CompositeId.

(** C1: the id a future is constructed with, [hash n + ":" + j], gives
    back the trainer name [n] through [get_trainer_name], provided
    [reverse_hash] inverts [hash] and [hash n] holds no delimiter. *)
Theorem get_trainer_name_of_future_id
    (H : ReversibleHasher) (n j : string) (save_with_id : bool)
    (save_path : option string) :
  hash_reversible H -> hash_delimiter_free H n ->
  _id (init n j save_with_id save_path) = hash n ++ ":" ++ j /\
  get_trainer_name (_id (init n j save_with_id save_path)) = Some n.
Proof.
  intros Hr Hn. split; [reflexivity|].
  rewrite init_id. unfold get_trainer_name.
  rewrite (first_segment H n j Hn). apply Hr.
Qed.

Lemma get_trainer_name_of_future_id_witness :
  get_trainer_name (H := HexHasher.hasher)
    (_id (init (H := HexHasher.hasher) "local" "job7" true (Some "/models/m")))
  = Some "local".
Proof.
  apply (get_trainer_name_of_future_id HexHasher.hasher "local" "job7" true
           (Some "/models/m")).
  - exact HexFacts.hasher_reversible.
  - reflexivity.
Defined.

(** C10: a job id that itself holds delimiters does not disturb the
    decoding: [split] cuts the job id too, but the segment before the first
    delimiter is still [hash n], and the name recovered is [n]. *)
Theorem get_trainer_name_first_segment_only
    (H : ReversibleHasher) (n j : string) (save_with_id : bool)
    (save_path : option string) :
  hash_reversible H -> hash_delimiter_free H n ->
  lacks delim_char j = false ->
  let id := _id (init n j save_with_id save_path) in
  hd_error (str_split delim_char id) = Some (hash n) /\
  3 <= List.length (str_split delim_char id) /\
  get_trainer_name id = Some n.
Proof.
  intros Hr Hn Hj id. subst id. rewrite init_id.
  unfold get_trainer_name. rewrite (first_segment H n j Hn).
  repeat split.
  - pose proof (str_split_segments delim_char j Hj). simpl. lia.
  - apply Hr.
Qed.

Lemma get_trainer_name_first_segment_only_witness :
  get_trainer_name (H := HexHasher.hasher)
    (_id (init (H := HexHasher.hasher) "local" "ns:job:7" false None))
  = Some "local".
Proof.
  apply (get_trainer_name_first_segment_only HexHasher.hasher "local"
           "ns:job:7" false None).
  - exact HexFacts.hasher_reversible.
  - reflexivity.
  - reflexivity.
Defined.

(** C7, as the code has it: on an id without any delimiter the first
    segment is the whole id, so [get_trainer_name] is [reverse_hash] of the
    id itself and fails exactly when the hasher rejects it. *)
Theorem get_trainer_name_without_delimiter
    (H : ReversibleHasher) (training_id : string) :
  missing_delimiter training_id = true ->
  get_trainer_name training_id = reverse_hash training_id.
Proof.
  intros Hm. unfold get_trainer_name.
  now rewrite (str_split_lacks _ _ Hm).
Qed.

Lemma get_trainer_name_without_delimiter_witness :
  get_trainer_name (H := HexHasher.hasher) "zz" = None.
Proof.
  rewrite (get_trainer_name_without_delimiter HexHasher.hasher "zz").
  - reflexivity.
  - reflexivity.
Defined.

(** C7 as stated fails: the id ["6c6f63616c"] has no delimiter, and
    [get_trainer_name] returns the trainer name ["local"]. *)
Lemma bare_token_returns_name :
  missing_delimiter "6c6f63616c" = true /\
  "6c6f63616c" = hash (ReversibleHasher := HexHasher.hasher) "local" /\
  get_trainer_name (H := HexHasher.hasher) "6c6f63616c" = Some "local".
Proof. repeat split. Qed.

(** ** The save path *)

Section SavePath.
Import PosixPath.

Lemma endswith_app_self (a s : string) : endswith (a ++ s) s = true.
Proof.
  induction a as [|x a IH]; simpl.
  - destruct s; [reflexivity|]. now rewrite endswith_cons, String.eqb_refl.
  - rewrite IH. apply orb_true_r.
Qed.

Lemma join_step_empty (x : string) :
  x <> "" -> join_step x "" = if endswith x sep then x else x ++ sep.
Proof.
  intros Hx. unfold join_step.
  change (startswith "" sep) with false. cbv iota.
  replace (x =? "") with false
    by (destruct x; [now elim Hx | reflexivity]).
  rewrite orb_false_l.
  destruct (endswith x sep).
  - apply append_empty_r.
  - reflexivity.
Qed.

Lemma save_path_kept (p : string) (b : bool) (t : string) :
  negb b || str_in t p = true -> _save_path_with_id (Some p) b t = Some p.
Proof. intros Hg. unfold _save_path_with_id. now rewrite Hg. Qed.

Lemma save_path_injected (p t : string) :
  str_in t p = false ->
  _save_path_with_id (Some p) true t
  = Some (join (fst (split p)) [t; snd (split p)]).
Proof. intros Hin. unfold _save_path_with_id. now rewrite Hin. Qed.

(** The injected path always holds the id, followed by one separator and
    the leaf. *)
Lemma injected_shape (p t : string) :
  t <> "" ->
  exists pre,
    join (fst (split p)) [t; snd (split p)]
    = pre ++ t ++ (if endswith t sep then "" else sep) ++ snd (split p).
Proof.
  intros Ht. apply join_inject; [exact Ht|].
  apply lacks_startswith, split_tail_lacks.
Qed.

Lemma leaf_nonempty (p : string) :
  endswith p sep = false -> p <> "" -> snd (split p) <> "".
Proof.
  intros He Hp.
  destruct (last_occurrence sep_char p) as [Hl|(a & b & -> & Hl)].
  - now rewrite (split_no_sep _ Hl).
  - rewrite (split_at_last_sep _ _ Hl). simpl. intros ->.
    unfold sep in He. now rewrite endswith_snoc in He.
Qed.

End SavePath.

(** C5: without a base save path the derived save path is absent, whatever
    the flag and the id. *)
Theorem save_path_absent (save_with_id : bool) (training_id : string) :
  _save_path_with_id None save_with_id training_id = None.
Proof. reflexivity. Qed.

(** C4: a base path is returned unchanged when the flag is off or the id
    already occurs in it. *)
Theorem save_path_unchanged (p : string) (save_with_id : bool) (t : string) :
  save_with_id = false \/ str_in t p = true ->
  _save_path_with_id (Some p) save_with_id t = Some p.
Proof.
  intros [-> | Hin]; [reflexivity|].
  apply save_path_kept. rewrite Hin. apply orb_true_r.
Qed.

Lemma save_path_unchanged_witness :
  _save_path_with_id (Some "/models/abc123:job7/my-model") true "abc123:job7"
  = Some "/models/abc123:job7/my-model" /\
  _save_path_with_id (Some "/models/my-model") false "abc123:job7"
  = Some "/models/my-model".
Proof.
  split.
  - apply (save_path_unchanged "/models/abc123:job7/my-model" true
             "abc123:job7").
    right. reflexivity.
  - apply (save_path_unchanged "/models/my-model" false "abc123:job7").
    left. reflexivity.
Defined.

(** C2: for a base path without trailing separator and an id that does not
    occur in it, the result is [join] of the parent directory, the id and
    the leaf of [split]; the leaf holds no separator and, for a non-empty
    path, is not empty, and in the result the id stands directly before it,
    one separator apart.  The spec's example is the last conjunct. *)
Theorem save_path_injects_above_leaf :
  (forall p t : string,
     endswith p PosixPath.sep = false -> str_in t p = false ->
     let parent := fst (PosixPath.split p) in
     let leaf := snd (PosixPath.split p) in
     _save_path_with_id (Some p) true t
     = Some (PosixPath.join parent [t; leaf]) /\
     lacks PosixPath.sep_char leaf = true /\
     (p <> "" -> leaf <> "") /\
     exists pre,
       PosixPath.join parent [t; leaf]
       = pre ++ t ++ (if endswith t PosixPath.sep then "" else PosixPath.sep)
             ++ leaf) /\
  _save_path_with_id (Some "/models/my-model") true "abc123:job7"
  = Some "/models/abc123:job7/my-model".
Proof.
  split; [|reflexivity].
  intros p t Hend Hin parent leaf. subst parent leaf.
  split; [now apply save_path_injected|].
  split; [apply split_tail_lacks|].
  split; [now apply leaf_nonempty|].
  apply injected_shape. exact (str_in_false_nonempty t p Hin).
Qed.

Lemma save_path_injects_above_leaf_witness :
  _save_path_with_id (Some "out/run/model") true "6c6f63616c:42"
  = Some (PosixPath.join "out/run" ["6c6f63616c:42"; "model"]).
Proof.
  apply (proj1 save_path_injects_above_leaf "out/run/model" "6c6f63616c:42");
    reflexivity.
Defined.

(** C6: deriving the save path from an already derived save path changes
    nothing, and equal inputs give equal save paths. *)
Theorem save_path_idempotent :
  (forall (p : option string) (b : bool) (t : string),
     _save_path_with_id (_save_path_with_id p b t) b t
     = _save_path_with_id p b t) /\
  (forall (p p' : option string) (b b' : bool) (t t' : string),
     p = p' -> b = b' -> t = t' ->
     _save_path_with_id p b t = _save_path_with_id p' b' t').
Proof.
  split; [|now intros p p' b b' t t' -> -> ->].
  intros [p|] b t; [|reflexivity].
  destruct b; [|reflexivity].
  destruct (str_in t p) eqn:Hin.
  - rewrite (save_path_kept p true t Hin).
    exact (save_path_kept p true t Hin).
  - rewrite (save_path_injected p t Hin).
    apply save_path_kept. cbn [negb orb].
    destruct (injected_shape p t (str_in_false_nonempty t p Hin)) as [pre ->].
    apply str_in_middle.
Qed.

Lemma save_path_idempotent_witness :
  _save_path_with_id
    (_save_path_with_id (Some "/models/my-model") true "abc123:job7")
    true "abc123:job7"
  = Some "/models/abc123:job7/my-model" /\
  _save_path_with_id (Some "/models/my-model") true "abc123:job7"
  = _save_path_with_id (Some "/models/my-model") true "abc123:job7".
Proof.
  split.
  - rewrite (proj1 save_path_idempotent (Some "/models/my-model") true
               "abc123:job7").
    reflexivity.
  - apply (proj2 save_path_idempotent); reflexivity.
Defined.

Section TrailingSeparator.
Import PosixPath.

Lemma double_sep_suffix (d : string) :
  endswith (d ++ sep) (sep ++ sep) = false -> endswith d sep = false.
Proof.
  intros Hd. destruct (endswith d sep) eqn:E; [|reflexivity].
  destruct (endswith_inv _ _ E) as [a ->].
  rewrite append_assoc, endswith_app_self in Hd. discriminate.
Qed.

(** With the leaf empty, the id closes the path and one separator follows
    it. *)
Lemma join_empty_leaf (head t : string) :
  t <> "" ->
  exists pre,
    join head [t; ""] = pre ++ t ++ (if endswith t sep then "" else sep).
Proof.
  intros Ht. destruct (join_inject head t "" Ht eq_refl) as [pre E].
  exists pre. rewrite E. now rewrite append_empty_r.
Qed.

Lemma join_single_trailing (d t : string) :
  t <> "" -> endswith d sep = false -> endswith t sep = false ->
  join (strip_head (d ++ sep)) [t; ""] = join (d ++ sep) [t] ++ sep.
Proof.
  intros Ht Hd Hts. rewrite join_two. change (join (d ++ sep) [t])
    with (join_step (d ++ sep) t).
  assert (Hsame : join_step (strip_head (d ++ sep)) t = join_step (d ++ sep) t).
  { assert (Hes : endswith (d ++ sep) sep = true) by apply endswith_snoc.
    rewrite (strip_head_single d Hd). unfold join_step.
    destruct (startswith t sep); [reflexivity|].
    rewrite Hes, orb_true_r.
    destruct d as [|x d]; [reflexivity|].
    rewrite eqb_empty_false, Hd. cbv iota. simpl orb. cbv iota.
    now rewrite append_assoc. }
  rewrite Hsame.
  assert (exists pre, join_step (d ++ sep) t = pre ++ t) as [pre E].
  { unfold join_step. destruct (startswith t sep); [now exists ""|].
    destruct (_ || _); [now exists (d ++ sep)|].
    exists ((d ++ sep) ++ sep). now rewrite !append_assoc. }
  rewrite E, join_step_empty.
  - pose proof (endswith_app pre t sep_char Ht) as Happ. fold sep in Happ.
    now rewrite Happ, Hts.
  - intros X. apply append_eq_empty in X as [_ ->]. now elim Ht.
Qed.

End TrailingSeparator.

(** C8, as the code has it: for a base path ending in the separator and an
    id that does not occur in it, the leaf of [split] is empty and the
    result is [join] of the directory part, the id and the empty leaf,
    where the directory part is the path without its trailing separators
    (the path itself when it is made of separators only); the id closes the
    result, followed by exactly one separator.  When the path ends in a
    single separator and the id does not end in one, this is the path
    joined with the id, plus a trailing separator. *)
Theorem save_path_trailing_separator (p t : string) :
  endswith p PosixPath.sep = true -> str_in t p = false ->
  PosixPath.split p = (strip_head p, "") /\
  _save_path_with_id (Some p) true t
  = Some (PosixPath.join (strip_head p) [t; ""]) /\
  (exists pre,
     PosixPath.join (strip_head p) [t; ""]
     = pre ++ t ++ (if endswith t PosixPath.sep then "" else PosixPath.sep)) /\
  (endswith p (PosixPath.sep ++ PosixPath.sep) = false ->
   endswith t PosixPath.sep = false ->
   _save_path_with_id (Some p) true t
   = Some (PosixPath.join p [t] ++ PosixPath.sep)).
Proof.
  intros Hend Hin.
  pose proof (str_in_false_nonempty t p Hin) as Ht.
  destruct (split_trailing_sep p Hend) as (d & Hp & Hsplit).
  assert (Hres : _save_path_with_id (Some p) true t
                 = Some (PosixPath.join (strip_head p) [t; ""])).
  { rewrite (save_path_injected p t Hin). now rewrite Hsplit. }
  split; [exact Hsplit|]. split; [exact Hres|].
  split; [now apply join_empty_leaf|].
  intros Hsingle Hts. rewrite Hres. subst p. f_equal.
  apply join_single_trailing; [exact Ht| |exact Hts].
  now apply double_sep_suffix.
Qed.

Lemma save_path_trailing_separator_witness :
  _save_path_with_id (Some "/models/") true "abc123:job7"
  = Some "/models/abc123:job7/".
Proof.
  destruct (save_path_trailing_separator "/models/" "abc123:job7"
              eq_refl eq_refl) as (_ & _ & _ & E).
  rewrite (E eq_refl eq_refl). reflexivity.
Defined.

(** C8 as stated fails: for the path ["a//"] and the id ["t"] the result is
    ["a/t/"], which is none of the readings of "the path joined with the
    id plus a trailing separator". *)
Lemma doubled_trailing_separator_collapses :
  endswith "a//" PosixPath.sep = true /\
  str_in "t" "a//" = false /\
  _save_path_with_id (Some "a//") true "t" = Some "a/t/" /\
  PosixPath.join "a//" ["t"] ++ PosixPath.sep = "a//t/" /\
  PosixPath.join "a//" ["t"; ""] = "a//t/" /\
  _save_path_with_id (Some "a//") true "t"
  <> Some (PosixPath.join "a//" ["t"] ++ PosixPath.sep).
Proof. repeat split. discriminate. Qed.

(** C9, as the code has it: for the empty base path and a non-empty id,
    the result is the id followed by one separator, the id's own when it
    already ends in one; it is neither the empty path nor absent. *)
Theorem save_path_of_empty_path (t : string) :
  t <> "" ->
  _save_path_with_id (Some "") true t
  = Some (if endswith t PosixPath.sep then t else t ++ PosixPath.sep) /\
  _save_path_with_id (Some "") true t <> Some "" /\
  _save_path_with_id (Some "") true t <> None.
Proof.
  intros Ht.
  assert (E : _save_path_with_id (Some "") true t
              = Some (if endswith t PosixPath.sep then t
                      else t ++ PosixPath.sep)).
  { rewrite save_path_injected by (destruct t; [now elim Ht | reflexivity]).
    change (PosixPath.split "") with ("", ""). cbn [fst snd].
    rewrite join_two.
    replace (PosixPath.join_step "" t) with t
      by (unfold PosixPath.join_step; now destruct (startswith t _)).
    now rewrite join_step_empty. }
  rewrite E. repeat split; [|discriminate].
  destruct (endswith t PosixPath.sep); intros [= X]; [now elim Ht|].
  apply append_eq_empty in X as [_ X]. discriminate.
Qed.

Lemma save_path_of_empty_path_witness :
  _save_path_with_id (Some "") true "abc123:job7" = Some "abc123:job7/".
Proof.
  rewrite (proj1 (save_path_of_empty_path "abc123:job7"
                    ltac:(discriminate))).
  reflexivity.
Defined.

(** C9 as stated fails: the id ["t/"] is not empty, and the result for the
    empty base path is ["t/"] itself, not ["t//"]. *)
Lemma empty_path_id_keeps_own_separator :
  _save_path_with_id (Some "") true "t/" = Some "t/" /\
  _save_path_with_id (Some "") true "t/" <> Some ("t/" ++ PosixPath.sep).
Proof. split; [reflexivity | discriminate]. Qed.

(** * Further properties of the module *)

(** ** More on strings *)

Section MoreStringFacts.

Lemma append_cancel_l (a b c : string) : a ++ b = a ++ c -> b = c.
Proof.
  induction a as [|x a IH]; simpl; [auto|].
  intros [= E]. exact (IH E).
Qed.

Lemma lacks_endswith (c : ascii) (s : string) :
  lacks c s = true -> endswith s (String c "") = false.
Proof.
  intros H. destruct (endswith s (String c "")) eqn:E; [|reflexivity].
  destruct (endswith_inv _ _ E) as [a ->]. clear E.
  induction a as [|x a IH]; simpl in H.
  - now rewrite Ascii.eqb_refl in H.
  - apply andb_true_iff in H as [_ H]. exact (IH H).
Qed.

Lemma str_split_nonempty (c : ascii) (s : string) : str_split c s <> [].
Proof.
  destruct s as [|x s]; simpl; [discriminate|].
  destruct (x =? c)%char; [discriminate|].
  destruct (str_split c s); discriminate.
Qed.

(** Joining the segments with the separator gives the string back. *)
Lemma str_join_split (c : ascii) (s : string) :
  str_join (String c "") (str_split c s) = s.
Proof.
  unfold str_join. induction s as [|x s IH]; [reflexivity|].
  cbn [str_split]. pose proof (str_split_nonempty c s) as Hne.
  destruct (Ascii.eqb_spec x c) as [->|_].
  - destruct (str_split c s) as [|seg segs]; [now elim Hne|].
    cbn [concat]. cbn [concat] in IH. now rewrite IH.
  - destruct (str_split c s) as [|seg segs]; [now elim Hne|].
    destruct segs as [|seg' segs]; cbn [concat] in *; now rewrite <- IH.
Qed.

(** The first segment is the longest prefix without the separator. *)
Lemma str_split_head (c : ascii) (s : string) :
  exists seg segs,
    str_split c s = seg :: segs /\ lacks c seg = true /\
    prefix seg s = true.
Proof.
  induction s as [|x s (seg & segs & E & Hl & Hp)].
  - now exists "", [].
  - cbn [str_split]. destruct (x =? c)%char eqn:Hx.
    + now exists "", (str_split c s).
    + rewrite E. exists (String x seg), segs.
      repeat split.
      * simpl. now rewrite Hx, Hl.
      * simpl. destruct (ascii_dec x x) as [_|N]; [exact Hp | now elim N].
Qed.

End MoreStringFacts.

(** ** More on [posixpath.join] *)

Section MoreJoinFacts.
Import PosixPath.

Lemma join_step_nonempty (path b : string) : b <> "" -> join_step path b <> "".
Proof.
  intros Hb E. unfold join_step in E.
  destruct (startswith b sep); [now elim Hb|].
  destruct (_ || _); apply append_eq_empty in E as [_ E].
  - now elim Hb.
  - discriminate.
Qed.

Lemma join_step_endswith (path b : string) :
  b <> "" -> endswith (join_step path b) sep = endswith b sep.
Proof.
  intros Hb. unfold join_step.
  destruct (startswith b sep); [reflexivity|].
  destruct (_ || _).
  - apply (endswith_app path b sep_char Hb).
  - rewrite <- append_assoc. apply (endswith_app (path ++ sep) b sep_char Hb).
Qed.

Lemma join_step_relative (path b : string) :
  path <> "" -> endswith path sep = false -> startswith b sep = false ->
  join_step path b = path ++ sep ++ b.
Proof.
  intros Hp He Hb. unfold join_step. rewrite Hb, He.
  destruct path; [now elim Hp | reflexivity].
Qed.

Lemma join_step_extends (path b : string) :
  startswith b sep = false -> exists rest, join_step path b = path ++ rest.
Proof.
  intros Hb. unfold join_step. rewrite Hb.
  destruct (_ || _); [now exists b | now exists (sep ++ b)].
Qed.

(** The leaf follows the joined directory after exactly one separator,
    whatever the id ends in. *)
Lemma join_before_leaf (head t leaf : string) :
  t <> "" -> startswith leaf sep = false ->
  exists dir, join head [t; leaf] = dir ++ String sep_char leaf.
Proof.
  intros Ht Hleaf. destruct (join_inject head t leaf Ht Hleaf) as [pre E].
  rewrite E. destruct (endswith t sep) eqn:Hts.
  - destruct (endswith_inv _ _ Hts) as [t' ->].
    exists (pre ++ t'). now rewrite !append_assoc.
  - exists (pre ++ t). now rewrite !append_assoc.
Qed.

Lemma join_leaf_after_id (head t leaf : string) :
  t <> "" -> endswith t sep = false -> startswith leaf sep = false ->
  join head [t; leaf] = join head [t] ++ String sep_char leaf.
Proof.
  intros Ht Hts Hleaf. rewrite join_two.
  change (join head [t]) with (join_step head t).
  rewrite join_step_relative; [reflexivity | | | exact Hleaf].
  - now apply join_step_nonempty.
  - now rewrite join_step_endswith.
Qed.

Lemma split_after_join (dir leaf : string) :
  dir <> "" -> endswith dir sep = false -> lacks sep_char leaf = true ->
  split (dir ++ String sep_char leaf) = (dir, leaf).
Proof.
  intros Hd He Hl. rewrite (split_at_last_sep _ _ Hl).
  rewrite (strip_head_single dir He).
  destruct dir; [now elim Hd | reflexivity].
Qed.

Lemma split_join_name (head t : string) :
  lacks sep_char t = true -> snd (split (join head [t])) = t.
Proof.
  intros Hl. change (join head [t]) with (join_step head t).
  pose proof (lacks_startswith _ _ Hl) as Hs. fold sep in Hs.
  unfold join_step. rewrite Hs.
  destruct (head =? "") eqn:Hh.
  - apply String.eqb_eq in Hh. subst head. cbn [orb append].
    now rewrite (split_no_sep _ Hl).
  - cbn [orb]. destruct (endswith head sep) eqn:He.
    + destruct (endswith_inv _ _ He) as [h ->].
      rewrite append_assoc. cbn [append].
      now rewrite (split_at_last_sep h t Hl).
    + change (sep ++ t) with (String sep_char t).
      now rewrite (split_at_last_sep head t Hl).
Qed.

Lemma leaf_relative (p : string) : startswith (snd (split p)) sep = false.
Proof. apply lacks_startswith, split_tail_lacks. Qed.

End MoreJoinFacts.

(** ** More on the save path *)

(** X1: whatever the flag and the id, the derived save path has the leaf
    name of the base path: the last component, taken as the model id, is
    never touched. *)
Theorem save_path_keeps_leaf (p : string) (b : bool) (t r : string) :
  _save_path_with_id (Some p) b t = Some r ->
  snd (PosixPath.split r) = snd (PosixPath.split p).
Proof.
  intros E. destruct (negb b || str_in t p) eqn:Hg.
  { rewrite (save_path_kept p b t Hg) in E. now injection E as <-. }
  apply orb_false_iff in Hg as [Hb Hin].
  destruct b; [|discriminate Hb].
  rewrite (save_path_injected p t Hin) in E.
  assert (Er : r = PosixPath.join (fst (PosixPath.split p))
                     [t; snd (PosixPath.split p)]) by congruence.
  subst r. clear E.
  pose proof (split_tail_lacks p) as Hl.
  destruct (join_before_leaf (fst (PosixPath.split p)) t
              (snd (PosixPath.split p)))
    as [dir ->].
  - exact (str_in_false_nonempty t p Hin).
  - now apply lacks_startswith.
  - now rewrite (split_at_last_sep dir _ Hl).
Qed.

Lemma save_path_keeps_leaf_witness :
  snd (PosixPath.split "/models/abc123:job7/my-model") = "my-model".
Proof.
  apply (save_path_keeps_leaf "/models/my-model" true "abc123:job7"
           "/models/abc123:job7/my-model").
  reflexivity.
Defined.

(** X2: when the id is injected and does not end in a separator, splitting
    the result gives back the parent directory joined with the id, and the
    leaf. *)
Theorem save_path_splits_back (p t : string) :
  str_in t p = false -> endswith t PosixPath.sep = false ->
  exists r,
    _save_path_with_id (Some p) true t = Some r /\
    PosixPath.split r
    = (PosixPath.join (fst (PosixPath.split p)) [t], snd (PosixPath.split p)).
Proof.
  intros Hin Hts. pose proof (str_in_false_nonempty t p Hin) as Ht.
  pose proof (split_tail_lacks p) as Hl.
  eexists. split; [now apply save_path_injected|].
  rewrite join_leaf_after_id;
    [|exact Ht | exact Hts | now apply lacks_startswith].
  apply split_after_join; [| |exact Hl].
  - now apply join_step_nonempty.
  - change (endswith (PosixPath.join_step (fst (PosixPath.split p)) t)
              PosixPath.sep = false).
    now rewrite join_step_endswith.
Qed.

Lemma save_path_splits_back_witness :
  exists r,
    _save_path_with_id (Some "/models/my-model") true "abc123:job7" = Some r /\
    PosixPath.split r = ("/models/abc123:job7", "my-model").
Proof.
  exact (save_path_splits_back "/models/my-model" "abc123:job7"
           eq_refl eq_refl).
Defined.

Lemma injected_id_names_parent (p t : string) :
  str_in t p = false -> lacks PosixPath.sep_char t = true ->
  snd (PosixPath.split
         (fst (PosixPath.split
                 (PosixPath.join (fst (PosixPath.split p))
                    [t; snd (PosixPath.split p)]))))
  = t.
Proof.
  intros Hin Hlt. pose proof (str_in_false_nonempty t p Hin) as Ht.
  pose proof (split_tail_lacks p) as Hl.
  pose proof (lacks_endswith _ _ Hlt) as Hts.
  rewrite join_leaf_after_id;
    [|exact Ht | exact Hts | now apply lacks_startswith].
  rewrite split_after_join; [now apply split_join_name| | |exact Hl].
  - now apply join_step_nonempty.
  - change (endswith (PosixPath.join_step (fst (PosixPath.split p)) t)
              PosixPath.sep = false).
    now rewrite join_step_endswith.
Qed.

(** X3: an injected id without separator is the name of the directory that
    holds the leaf. *)
Theorem save_path_id_names_parent (p t : string) :
  str_in t p = false -> lacks PosixPath.sep_char t = true ->
  exists r,
    _save_path_with_id (Some p) true t = Some r /\
    snd (PosixPath.split (fst (PosixPath.split r))) = t.
Proof.
  intros Hin Hlt. eexists. split; [now apply save_path_injected|].
  now apply injected_id_names_parent.
Qed.

Lemma save_path_id_names_parent_witness :
  exists r,
    _save_path_with_id (Some "out/run/model") true "6c6f63616c:42" = Some r /\
    snd (PosixPath.split (fst (PosixPath.split r))) = "6c6f63616c:42".
Proof.
  exact (save_path_id_names_parent "out/run/model" "6c6f63616c:42"
           eq_refl eq_refl).
Defined.

(** X4: an injected id that starts with the separator is absolute for
    [os.path.join]: the parent directory of the base path is dropped, and
    the result is the id followed by the leaf. *)
Theorem save_path_absolute_id_drops_parent (p t : string) :
  str_in t p = false -> startswith t PosixPath.sep = true ->
  _save_path_with_id (Some p) true t
  = Some (t ++ (if endswith t PosixPath.sep then "" else PosixPath.sep)
            ++ snd (PosixPath.split p)).
Proof.
  intros Hin Hst. pose proof (str_in_false_nonempty t p Hin) as Ht.
  rewrite (save_path_injected p t Hin). f_equal. rewrite join_two.
  replace (PosixPath.join_step (fst (PosixPath.split p)) t) with t
    by (unfold PosixPath.join_step; now rewrite Hst).
  unfold PosixPath.join_step. rewrite (leaf_relative p).
  replace (t =? "") with false
    by (destruct t; [now elim Ht | reflexivity]).
  cbn [orb]. now destruct (endswith t PosixPath.sep).
Qed.

Lemma save_path_absolute_id_drops_parent_witness :
  _save_path_with_id (Some "/models/my-model") true "/tmp/x"
  = Some "/tmp/x/my-model".
Proof.
  rewrite (save_path_absolute_id_drops_parent "/models/my-model" "/tmp/x"
             eq_refl eq_refl).
  reflexivity.
Defined.

(** X5: an injected id that does not start with the separator leaves the
    parent directory of the base path in front of the result. *)
Theorem save_path_relative_id_keeps_parent (p t : string) :
  str_in t p = false -> startswith t PosixPath.sep = false ->
  exists rest,
    _save_path_with_id (Some p) true t
    = Some (fst (PosixPath.split p) ++ rest).
Proof.
  intros Hin Hst. rewrite (save_path_injected p t Hin), join_two.
  destruct (join_step_extends (fst (PosixPath.split p)) t Hst) as [r1 ->].
  destruct (join_step_extends (fst (PosixPath.split p) ++ r1)
              (snd (PosixPath.split p))) as [r2 ->].
  - apply lacks_startswith, split_tail_lacks.
  - exists (r1 ++ r2). now rewrite append_assoc.
Qed.

Lemma save_path_relative_id_keeps_parent_witness :
  exists rest,
    _save_path_with_id (Some "/models/my-model") true "abc123:job7"
    = Some ("/models" ++ rest).
Proof.
  exact (save_path_relative_id_keeps_parent "/models/my-model" "abc123:job7"
           eq_refl eq_refl).
Defined.

(** X6: the general form of the documented example.  For a base path
    [d/leaf], with [d] not ending in the separator and the leaf free of
    it, and an id that neither starts nor ends with the separator and does
    not occur in the base path, the result is [d/id/leaf]. *)
Theorem save_path_dir_id_leaf (d leaf t : string) :
  endswith d PosixPath.sep = false ->
  lacks PosixPath.sep_char leaf = true ->
  startswith t PosixPath.sep = false ->
  endswith t PosixPath.sep = false ->
  str_in t (d ++ "/" ++ leaf) = false ->
  _save_path_with_id (Some (d ++ "/" ++ leaf)) true t
  = Some (d ++ "/" ++ t ++ "/" ++ leaf).
Proof.
  intros Hd Hleaf Hst Hts Hin.
  pose proof (str_in_false_nonempty _ _ Hin) as Ht.
  rewrite (save_path_injected _ t Hin). f_equal.
  change (d ++ "/" ++ leaf) with (d ++ String PosixPath.sep_char leaf).
  rewrite (split_at_last_sep d leaf Hleaf). cbn [fst snd].
  rewrite (strip_head_single d Hd).
  rewrite join_leaf_after_id;
    [|exact Ht | exact Hts | now apply lacks_startswith].
  change (PosixPath.join ?h [t]) with (PosixPath.join_step h t).
  destruct d as [|x d].
  - cbn [String.eqb]. unfold PosixPath.join_step. rewrite Hst. reflexivity.
  - rewrite eqb_empty_false.
    rewrite (join_step_relative (String x d) t);
      [|discriminate | exact Hd | exact Hst].
    now rewrite !append_assoc.
Qed.

Lemma save_path_dir_id_leaf_witness :
  _save_path_with_id (Some ("/srv/models" ++ "/" ++ "sentiment")) true
    "6c6f63616c:42"
  = Some ("/srv/models" ++ "/" ++ "6c6f63616c:42" ++ "/" ++ "sentiment").
Proof.
  apply (save_path_dir_id_leaf "/srv/models" "sentiment" "6c6f63616c:42");
    reflexivity.
Defined.

(** X7: a base path that is a bare name, without any separator, gets the
    id as its directory: the result is [id/name]. *)
Theorem save_path_of_bare_name (p t : string) :
  lacks PosixPath.sep_char p = true ->
  endswith t PosixPath.sep = false ->
  str_in t p = false ->
  _save_path_with_id (Some p) true t = Some (t ++ "/" ++ p).
Proof.
  intros Hp Hts Hin. pose proof (str_in_false_nonempty _ _ Hin) as Ht.
  rewrite (save_path_injected _ t Hin). f_equal.
  rewrite (split_no_sep p Hp). cbn [fst snd].
  rewrite join_leaf_after_id;
    [|exact Ht | exact Hts | now apply lacks_startswith].
  change (PosixPath.join "" [t]) with (PosixPath.join_step "" t).
  unfold PosixPath.join_step. now destruct (startswith t PosixPath.sep).
Qed.

Lemma save_path_of_bare_name_witness :
  _save_path_with_id (Some "my-model") true "abc123:job7"
  = Some "abc123:job7/my-model".
Proof.
  apply (save_path_of_bare_name "my-model" "abc123:job7"); reflexivity.
Defined.

(** X8: [os.path.split] followed by [os.path.join] gives the path back, as
    long as the path has no doubled separator. *)
Theorem split_join_roundtrip (p : string) :
  str_in (PosixPath.sep ++ PosixPath.sep) p = false ->
  PosixPath.join (fst (PosixPath.split p)) [snd (PosixPath.split p)] = p.
Proof.
  intros Hdd.
  change (PosixPath.join ?h [?x]) with (PosixPath.join_step h x).
  destruct (last_occurrence PosixPath.sep_char p) as [Hl|(a & b & -> & Hl)].
  - rewrite (split_no_sep p Hl). cbn [fst snd].
    unfold PosixPath.join_step.
    pose proof (lacks_startswith _ _ Hl) as Hs. fold PosixPath.sep in Hs.
    now rewrite Hs.
  - assert (Ha : endswith a PosixPath.sep = false).
    { destruct (endswith a PosixPath.sep) eqn:E; [|reflexivity].
      destruct (endswith_inv _ _ E) as [a' ->].
      rewrite append_assoc in Hdd.
      change (String PosixPath.sep_char "" ++ String PosixPath.sep_char b)
        with ((PosixPath.sep ++ PosixPath.sep) ++ b) in Hdd.
      now rewrite str_in_middle in Hdd. }
    pose proof (lacks_startswith _ _ Hl) as Hs. fold PosixPath.sep in Hs.
    rewrite (split_at_last_sep a b Hl). cbn [fst snd].
    rewrite (strip_head_single a Ha).
    destruct a as [|x a].
    + cbn [String.eqb]. unfold PosixPath.join_step. now rewrite Hs.
    + rewrite eqb_empty_false.
      now rewrite (join_step_relative (String x a) b).
Qed.

Lemma split_join_roundtrip_witness :
  PosixPath.join (fst (PosixPath.split "/models/my-model"))
    [snd (PosixPath.split "/models/my-model")]
  = "/models/my-model".
Proof.
  apply (split_join_roundtrip "/models/my-model"). reflexivity.
Defined.

(** ** More on the composite id *)

Section MoreCompositeId.
Context (H : ReversibleHasher).

Lemma lacks_app (c : ascii) (a b : string) :
  lacks c (a ++ b) = lacks c a && lacks c b.
Proof.
  induction a as [|x a IH]; simpl; [reflexivity|].
  rewrite IH. now rewrite andb_assoc.
Qed.

Lemma init_id_nonempty (n j : string) (b : bool) (p : option string) :
  _id (init n j b p) <> "".
Proof.
  rewrite init_id. intros E. apply append_eq_empty in E as [_ E].
  discriminate.
Qed.

Lemma hash_injective (n n' : string) :
  hash_reversible H -> hash n = hash n' -> n = n'.
Proof.
  intros Hr E. pose proof (Hr n) as E1. rewrite E, (Hr n') in E1.
  congruence.
Qed.

End MoreCompositeId.

(** X9: a future constructed with a save path and [save_with_id] exposes a
    save path that holds its own id, whether the id was injected or was in
    the base path already. *)
Theorem future_save_path_holds_id
    (H : ReversibleHasher) (n j p : string) :
  exists q,
    _save_path (init n j true (Some p)) = Some q /\
    str_in (_id (init n j true (Some p))) q = true.
Proof.
  pose proof (init_id_nonempty H n j true (Some p)) as Hne.
  change (_save_path (init n j true (Some p)))
    with (_save_path_with_id (Some p) true (_id (init n j true (Some p)))).
  set (id := _id (init n j true (Some p))) in *.
  destruct (str_in id p) eqn:Hin.
  - exists p. split; [|exact Hin]. now apply save_path_kept.
  - eexists. split; [now apply save_path_injected|].
    destruct (injected_shape p id Hne) as [pre ->].
    apply str_in_middle.
Qed.

(** X10: the composite id determines the trainer name and the job id:
    two futures with the same id were constructed with the same name and
    the same job id, provided [reverse_hash] inverts [hash] and the hashes
    of the names hold no delimiter. *)
Theorem future_id_injective
    (H : ReversibleHasher) (n j n' j' : string) (b b' : bool)
    (p p' : option string) :
  hash_reversible H -> hash_delimiter_free H n -> hash_delimiter_free H n' ->
  _id (init n j b p) = _id (init n' j' b' p') ->
  n = n' /\ j = j'.
Proof.
  intros Hr Hn Hn' E. rewrite !init_id in E.
  assert (Eh : hash n = hash n').
  { apply (f_equal (str_split delim_char)) in E.
    rewrite (first_segment H n j Hn), (first_segment H n' j' Hn') in E.
    congruence. }
  split; [exact (hash_injective H n n' Hr Eh)|].
  rewrite Eh in E. apply append_cancel_l in E. congruence.
Qed.

Lemma future_id_injective_witness :
  "local" = "local" /\ "job7" = "job7".
Proof.
  apply (future_id_injective HexHasher.hasher "local" "job7" "local" "job7"
           true false (Some "/models/m") None).
  - exact HexFacts.hasher_reversible.
  - reflexivity.
  - reflexivity.
  - reflexivity.
Defined.

(** X11: the backend job id is recovered from the composite id by joining
    the segments after the first with the delimiter, delimiters inside the
    job id included, provided the hash of the name holds no delimiter. *)
Theorem future_id_job_recovered
    (H : ReversibleHasher) (n j : string) (b : bool) (p : option string) :
  hash_delimiter_free H n ->
  str_join ID_DELIMITER (tl (str_split delim_char (_id (init n j b p)))) = j.
Proof.
  intros Hn. rewrite init_id, (first_segment H n j Hn).
  apply str_join_split.
Qed.

Lemma future_id_job_recovered_witness :
  str_join ID_DELIMITER
    (tl (str_split delim_char
           (_id (init (H := HexHasher.hasher) "local" "ns:job:7" false None))))
  = "ns:job:7".
Proof.
  apply (future_id_job_recovered HexHasher.hasher "local" "ns:job:7" false
           None).
  reflexivity.
Defined.

(** X12: [get_trainer_name] reads nothing but the part of the id before
    its first delimiter: whatever follows, the result is [reverse_hash] of
    that part, the same as for the bare part. *)
Theorem get_trainer_name_reads_prefix
    (H : ReversibleHasher) (a rest : string) :
  lacks delim_char a = true ->
  get_trainer_name (a ++ ":" ++ rest) = reverse_hash a /\
  get_trainer_name (a ++ ":" ++ rest) = get_trainer_name a.
Proof.
  intros Ha. unfold get_trainer_name.
  change (a ++ ":" ++ rest) with (a ++ String delim_char rest).
  now rewrite (str_split_first _ _ rest Ha), (str_split_lacks _ _ Ha).
Qed.

Lemma get_trainer_name_reads_prefix_witness :
  get_trainer_name (H := HexHasher.hasher) ("6c6f63616c" ++ ":" ++ "a:b")
  = get_trainer_name (H := HexHasher.hasher) "6c6f63616c".
Proof.
  apply (get_trainer_name_reads_prefix HexHasher.hasher "6c6f63616c" "a:b").
  reflexivity.
Defined.

(** X13: [get_trainer_name] never fails at the subscript: for every id,
    the empty one included, it is [reverse_hash] of a delimiter-free prefix
    of the id, so it fails only where the hasher does. *)
Theorem get_trainer_name_total_up_to_hasher
    (H : ReversibleHasher) (training_id : string) :
  exists seg,
    lacks delim_char seg = true /\
    prefix seg training_id = true /\
    get_trainer_name training_id = reverse_hash seg.
Proof.
  destruct (str_split_head delim_char training_id)
    as (seg & segs & E & Hl & Hp).
  exists seg. repeat split; [exact Hl | exact Hp |].
  unfold get_trainer_name. now rewrite E.
Qed.

(** X14: with [save_with_id], a job id and a hashed name free of path
    separators, and a base path that does not hold the id yet, the trainer
    name is read back from the name of the directory that holds the leaf of
    the future's save path. *)
Theorem trainer_name_from_save_path
    (H : ReversibleHasher) (n j p : string) :
  hash_reversible H -> hash_delimiter_free H n ->
  lacks PosixPath.sep_char (hash n) = true ->
  lacks PosixPath.sep_char j = true ->
  str_in (_id (init n j true (Some p))) p = false ->
  exists q,
    _save_path (init n j true (Some p)) = Some q /\
    get_trainer_name (snd (PosixPath.split (fst (PosixPath.split q))))
    = Some n.
Proof.
  intros Hr Hn Hsn Hsj Hin.
  assert (Hid : lacks PosixPath.sep_char (_id (init n j true (Some p)))
                = true).
  { rewrite init_id, lacks_app, Hsn. simpl. exact Hsj. }
  change (_save_path (init n j true (Some p)))
    with (_save_path_with_id (Some p) true (_id (init n j true (Some p)))).
  eexists. split; [now apply save_path_injected|].
  rewrite (injected_id_names_parent p _ Hin Hid).
  rewrite init_id. unfold get_trainer_name.
  rewrite (first_segment H n j Hn). apply Hr.
Qed.

Lemma trainer_name_from_save_path_witness :
  exists q,
    _save_path (init (H := HexHasher.hasher) "local" "job7" true
                  (Some "/models/my-model")) = Some q /\
    get_trainer_name (H := HexHasher.hasher)
      (snd (PosixPath.split (fst (PosixPath.split q))))
    = Some "local".
Proof.
  apply (trainer_name_from_save_path HexHasher.hasher "local" "job7"
           "/models/my-model").
  - exact HexFacts.hasher_reversible.
  - reflexivity.
  - reflexivity.
  - reflexivity.
  - reflexivity.
Defined.

(** X16: when asked to save with the id and the base path does not hold
    it, the result is never the base path itself. *)
Theorem save_path_injection_changes_path (p t : string) :
  str_in t p = false ->
  _save_path_with_id (Some p) true t <> Some p.
Proof.
  intros Hin. rewrite (save_path_injected p t Hin). intros E.
  destruct (injected_shape p t (str_in_false_nonempty t p Hin)) as [pre Es].
  rewrite Es in E.
  assert (Ep : p = pre ++ t ++ (if endswith t PosixPath.sep then ""
                                else PosixPath.sep)
                   ++ snd (PosixPath.split p)) by congruence.
  rewrite Ep, str_in_middle in Hin. discriminate.
Qed.

Lemma save_path_injection_changes_path_witness :
  _save_path_with_id (Some "/models/my-model") true "abc123:job7"
  <> Some "/models/my-model".
Proof.
  apply (save_path_injection_changes_path "/models/my-model" "abc123:job7").
  reflexivity.
Defined.

(** ** More on [TrainingStatus] *)

(** X15: the members carry the values 1 to 5, two members are the same
    exactly when their values are, and the terminal members are those whose
    value is at least 3. *)
Theorem training_status_values (a b : TrainingStatus) :
  (1 <= value a <= 5)%Z /\
  status_eqb a b = (value a =? value b)%Z /\
  is_terminal a = (3 <=? value a)%Z.
Proof. destruct a, b; repeat split; (reflexivity || discriminate). Qed.
